(** * A read-through cache in front of the universities API

    Shallow embedding of [app/main.py]: the two FastAPI routes [home] and
    [fetch_fish], the Redis client [rd] they share and the upstream HTTP
    call, with the effects of a request written as a state-and-exception
    monad over the Redis store and a chronological trace of effects. *)

From Stdlib Require Import ZArith String Ascii List Decimal DecimalString DecimalN.
From stdpp Require Import base option list strings gmap relations.

Local Open Scope string_scope.
Local Open Scope Z_scope.

(** ** The JSON library

    [json.loads], [json.dumps] and [Response.json] belong to the Python
    standard library and to [requests]: the program only calls them. They
    are taken as an interface. Decoding a byte string returns a value,
    [loads s = Some d], or raises, [loads s = None]. What it raises is
    [json.JSONDecodeError] for a text that is not JSON, but not only:
    [json.loads] raises [UnicodeDecodeError] on bytes that are not UTF-8,
    and both calls raise [RecursionError] on a text nested too deep and
    [ValueError] on an integer of too many digits. [loads_raises] says
    what [json.loads] raises on the bytes it does not decode, and
    [json_raises] what [Response.json] raises on the body it does not
    decode. The failures of the connections to Redis and to the upstream
    are left out. A Python [str] is represented by its UTF-8 bytes, which
    is what redis-py sends when [rd.set] is given a [str] and what
    [rd.get] hands back. *)

(** The exceptions of the Python library that the calls can raise. *)
Inductive error :=
  | JSONDecodeError
  | TypeError
  | UnicodeDecodeError
  | RecursionError
  | ValueError.

Class JsonCodec := {
  json : Type;
  loads : string → option json;
  dumps : json → string;
  loads_raises : string → error;
  json_raises : string → error
}.

(** What a JSON library guarantees: the empty text is not a JSON document,
    and a value that is written out reads back as itself. *)
Class JsonLaws (codec : JsonCodec) : Prop := {
  loads_empty : loads "" = None;
  loads_dumps : ∀ d : json, loads (dumps d) = Some d
}.

(** ** Redis: string values with an optional time to live

    [ttl] is the time to live an entry was given, in seconds. Time itself
    is not modelled: an entry that has one may be dropped at any moment
    between two requests ([step_expired] below). *)

Record entry := Entry {
  value : string;
  ttl : option Z
}.

(** [GET key] *)
Definition redis_get (key : string) (db : gmap string entry) : option string :=
  value <$> db !! key.

(** [SET key value]: the old value and its time to live are discarded. *)
Definition redis_set (key val : string) (db : gmap string entry) : gmap string entry :=
  <[key := Entry val None]> db.

(** [EXPIRE key seconds]: nothing on a missing key; a timeout that is not
    positive deletes the key. *)
Definition redis_expire (key : string) (seconds : Z) (db : gmap string entry)
  : gmap string entry :=
  match db !! key with
  | None => db
  | Some e =>
      if seconds <=? 0 then delete key db
      else <[key := Entry (value e) (Some seconds)]> db
  end.

(** ** The upstream API *)

Record response := Response {
  status_code : Z;
  body : string
}.

(** ** Effects of a request *)

Inductive event :=
  | Print (line : string)
  | RedisGet (key : string)
  | RedisSet (key val : string)
  | RedisExpire (key : string) (seconds : Z)
  | HttpGet (url : string) (resp : response).

Record world := World {
  rd : gmap string entry;
  trace : list event
}.

Definition init : world := World ∅ [].

Inductive exn :=
  | Error (e : error)
  | HTTPException (status_code : Z) (detail : string).

Inductive result (A : Type) :=
  | Return (a : A)
  | Raise (e : exn).
Arguments Return {A} a.
Arguments Raise {A} e.

Definition M (A : Type) : Type := world → result A * world.

#[export] Instance M_ret : MRet M := λ A a w, (Return a, w).

#[export] Instance M_bind : MBind M := λ A B f m w,
  match m w with
  | (Return a, w') => f a w'
  | (Raise e, w') => (Raise e, w')
  end.

Definition raise {A} (e : exn) : M A := λ w, (Raise e, w).

(** [try: body / except json.JSONDecodeError: handler] *)
Definition try_except_JSONDecodeError {A} (body handler : M A) : M A := λ w,
  match body w with
  | (Raise (Error JSONDecodeError), w') => handler w'
  | r => r
  end.

Definition log (e : event) (w : world) : world :=
  World (rd w) (trace w ++ [e]).

Definition print (line : string) : M unit := λ w,
  (Return (), log (Print line) w).

Definition rd_get (key : string) : M (option string) := λ w,
  (Return (redis_get key (rd w)), log (RedisGet key) w).

Definition rd_set (key val : string) : M unit := λ w,
  (Return (), World (redis_set key val (rd w)) (trace w ++ [RedisSet key val])).

Definition rd_expire (key : string) (seconds : Z) : M unit := λ w,
  (Return (),
   World (redis_expire key seconds (rd w)) (trace w ++ [RedisExpire key seconds])).

(** The requests sent upstream, in order. *)
Definition upstream_calls (t : list event) : list string :=
  omap (λ e, match e with HttpGet url _ => Some url | _ => None end) t.

(** The writes sent to Redis, in order. *)
Definition is_cache_write (e : event) : bool :=
  match e with
  | RedisSet _ _ | RedisExpire _ _ => true
  | _ => false
  end.

Definition cache_writes (t : list event) : list event :=
  List.filter is_cache_write t.

(** Truth value of what [rd.get] returns: [None] and [b''] are false. *)
Definition truthy (cache : option string) : bool :=
  match cache with
  | None => false
  | Some "" => false
  | Some _ => true
  end.

(** [@app.get("/")] *)
Definition home : M string := mret "hello worlds".

(** What the [except json.JSONDecodeError] clause of a [try] makes of an
    exception raised inside it: [HTTPException(500, detail)] of that one,
    any other goes on as it is. *)
Definition except_JSONDecodeError (detail : string) (e : error) : exn :=
  match e with
  | JSONDecodeError => HTTPException 500 detail
  | _ => Error e
  end.

(** What a path parameter [{university}] matches: one segment of the
    path, so a string that is not empty and holds no slash. *)
Fixpoint no_slash (s : string) : bool :=
  match s with
  | EmptyString => true
  | String "/" _ => false
  | String _ r => no_slash r
  end%char.

Definition path_segment (s : string) : bool :=
  match s with
  | EmptyString => false
  | String _ _ => no_slash s
  end.

Section App.
Context {codec : JsonCodec}.

(** What the upstream answers to a GET of a URL. *)
Variable upstream : string → response.

Definition requests_get (url : string) : M response := λ w,
  let data := upstream url in (Return data, log (HttpGet url data) w).

(** [json.loads(cache)] *)
Definition json_loads (cache : option string) : M json :=
  match cache with
  | None => raise (Error TypeError)
  | Some s =>
      match loads s with
      | Some d => mret d
      | None => raise (Error (loads_raises s))
      end
  end.

(** [data.json()] *)
Definition response_json (data : response) : M json :=
  match loads (body data) with
  | Some d => mret d
  | None => raise (Error (json_raises (body data)))
  end.

(** [@app.get("/unidata/{university}")] *)
Definition fetch_fish (university : string) : M json :=
  cache ← rd_get university;
  if truthy cache then
    print "cache hit";;
    try_except_JSONDecodeError
      (json_loads cache)
      (raise (HTTPException 500 "Error decoding cached data"))
  else
    print "cache is not there in redis";;
    data ← requests_get
             ("http://universities.hipolabs.com/search?country=" +:+ university);
    try_except_JSONDecodeError
      (json_data ← response_json data;
       rd_set university (dumps json_data);;
       rd_expire university 86400;;
       mret json_data)
      (raise (HTTPException 500 "Error decoding data from FishWatch API")).

(** *** What FastAPI sends back *)

Inductive content :=
  | JsonBody (d : json)
  | TextBody (s : string)
  | DetailBody (detail : string)
  | InternalServerError.

Record reply := Reply {
  status : Z;
  payload : content
}.

(** A returned value is sent with status 200; an [HTTPException] with its
    own status code and detail; any other exception as a plain 500. *)
Definition respond {A} (wrap : A → content) (r : result A) : reply :=
  match r with
  | Return a => Reply 200 (wrap a)
  | Raise (HTTPException code detail) => Reply code (DetailBody detail)
  | Raise (Error _) => Reply 500 InternalServerError
  end.

(** [GET /] *)
Definition get_root (w : world) : reply * world :=
  let '(r, w') := home w in (respond TextBody r, w').

(** [GET /unidata/{university}]: the route matches a path parameter that
    is one segment, not empty; any other path is answered 404 without
    [fetch_fish] being called. *)
Definition get_unidata (university : string) (w : world) : reply * world :=
  if path_segment university then
    let '(r, w') := fetch_fish university w in (respond JsonBody r, w')
  else (Reply 404 (DetailBody "Not Found"), w).
End App.

(** The URL [fetch_fish] asks for. *)
Definition url_of (university : string) : string :=
  "http://universities.hipolabs.com/search?country=" +:+ university.

(** ** The stores the service can reach

    A step is one request served, or Redis dropping an entry whose time to
    live ran out. *)

Section Reach.
Context {codec : JsonCodec}.

Inductive step : world → world → Prop :=
  | step_home w :
      step w (home w).2
  | step_fetch_fish upstream university w :
      step w (fetch_fish upstream university w).2
  | step_expired key e seconds w :
      rd w !! key = Some e →
      ttl e = Some seconds →
      step w (World (delete key (rd w)) (trace w)).

Definition reachable (w : world) : Prop := rtc step init w.

(** An entry that [fetch_fish] wrote: the serialization of a value decoded
    from an answer of the upstream to the request for its key, with a time
    to live of a day. *)
Definition written_by_fetch (w : world) (key : string) (e : entry) : Prop :=
  ∃ (resp : response) (d : json),
    HttpGet (url_of key) resp ∈ trace w ∧
    loads (body resp) = Some d ∧
    e = Entry (dumps d) (Some 86400).

Definition store_inv (w : world) : Prop :=
  ∀ key e, rd w !! key = Some e → written_by_fetch w key e.
End Reach.

(** ** A JSON codec for the interface

    Null, booleans, integers, strings, arrays and objects (no floats), in
    the layout [json.dumps] writes: [", "] between items and [": "] after
    a key. An object is kept as the list of its members, in order. Bytes
    from 0x80 up are written as they are, and read as they are without a
    check that they are UTF-8; there is no bound on the digits of an
    integer or on the nesting of a value that decodes. It gives the
    interface an instance that runs, on which the scenarios of the
    specification are evaluated. *)

Module MiniJson.

#[local] Set Warnings "-register-all".

Inductive pyvalue :=
  | PyNone
  | PyBool (b : bool)
  | PyInt (n : Z)
  | PyStr (s : string)
  | PyList (items : list pyvalue)
  | PyDict (items : list (string * pyvalue)).

(** *** Writing *)

Definition hex_char (n : N) : ascii :=
  match n with
  | 0 => "0" | 1 => "1" | 2 => "2" | 3 => "3" | 4 => "4" | 5 => "5"
  | 6 => "6" | 7 => "7" | 8 => "8" | 9 => "9" | 10 => "a" | 11 => "b"
  | 12 => "c" | 13 => "d" | 14 => "e" | _ => "f"
  end%N%char.

Definition write_char (c : ascii) (k : string) : string :=
  match c with
  | "034" => String "\" (String "034" k)
  | "\" => String "\" (String "\" k)
  | "008" => String "\" (String "b" k)
  | "012" => String "\" (String "f" k)
  | "010" => String "\" (String "n" k)
  | "013" => String "\" (String "r" k)
  | "009" => String "\" (String "t" k)
  | _ =>
      let n := N_of_ascii c in
      if ((n <? 32) || (n =? 127))%N then
        String "\" (String "u" (String "0" (String "0"
          (String (hex_char (n / 16)) (String (hex_char (n mod 16)) k)))))
      else String c k
  end%char.

Fixpoint write_chars (s k : string) : string :=
  match s with
  | EmptyString => k
  | String c s' => write_char c (write_chars s' k)
  end.

Definition write_str (s k : string) : string :=
  String "034" (write_chars s (String "034" k)).

Fixpoint write_uint (u : uint) (k : string) : string :=
  match u with
  | Nil => k
  | D0 u => String "0" (write_uint u k)
  | D1 u => String "1" (write_uint u k)
  | D2 u => String "2" (write_uint u k)
  | D3 u => String "3" (write_uint u k)
  | D4 u => String "4" (write_uint u k)
  | D5 u => String "5" (write_uint u k)
  | D6 u => String "6" (write_uint u k)
  | D7 u => String "7" (write_uint u k)
  | D8 u => String "8" (write_uint u k)
  | D9 u => String "9" (write_uint u k)
  end.

Definition write_nat (n : N) (k : string) : string :=
  write_uint (N.to_uint n) k.

Definition write_int (n : Z) (k : string) : string :=
  match n with
  | Zneg p => String "-" (write_nat (Npos p) k)
  | _ => write_nat (Z.to_N n) k
  end.

(** The items after the first, each behind [", "], then the closing
    bracket. *)
Definition write_rest {A} (w : A → string → string) (close : ascii)
    : list A → string → string :=
  fix rest (xs : list A) (k : string) : string :=
    match xs with
    | [] => String close k
    | x :: xs => String "," (String " " (w x (rest xs k)))
    end.

Definition write_seq {A} (w : A → string → string) (open close : ascii)
    (xs : list A) (k : string) : string :=
  match xs with
  | [] => String open (String close k)
  | x :: xs => String open (w x (write_rest w close xs k))
  end.

Fixpoint write (d : pyvalue) (k : string) : string :=
  match d with
  | PyNone => "null" +:+ k
  | PyBool true => "true" +:+ k
  | PyBool false => "false" +:+ k
  | PyInt n => write_int n k
  | PyStr s => write_str s k
  | PyList xs => write_seq write "[" "]" xs k
  | PyDict ms =>
      write_seq (λ m k, write_str m.1 (String ":" (String " " (write m.2 k))))
        "{" "}" ms k
  end.

Definition dumps (d : pyvalue) : string := write d "".

(** *** Reading *)

Fixpoint eat (p s : string) : option string :=
  match p, s with
  | EmptyString, _ => Some s
  | String a p, String b s => if Ascii.eqb a b then eat p s else None
  | String _ _, EmptyString => None
  end.

Fixpoint skip_ws (s : string) : string :=
  match s with
  | String c r =>
      match c with
      | " " | "009" | "010" | "013" => skip_ws r
      | _ => s
      end%char
  | EmptyString => s
  end.

Definition digit_of (c : ascii) : option (uint → uint) :=
  match c with
  | "0" => Some D0 | "1" => Some D1 | "2" => Some D2 | "3" => Some D3
  | "4" => Some D4 | "5" => Some D5 | "6" => Some D6 | "7" => Some D7
  | "8" => Some D8 | "9" => Some D9 | _ => None
  end%char.

Fixpoint read_digits (s : string) : uint * string :=
  match s with
  | String c r =>
      match digit_of c with
      | Some digit => let '(u, r') := read_digits r in (digit u, r')
      | None => (Nil, s)
      end
  | EmptyString => (Nil, s)
  end.

(** [0] or a digit from 1 to 9 followed by digits. *)
Definition read_nat (s : string) : option (N * string) :=
  let '(u, r) := read_digits s in
  if uint_eq_dec (unorm u) u then Some (N.of_uint u, r) else None.

Definition read_int (s : string) : option (Z * string) :=
  match eat "-" s with
  | Some r => '(n, r') ← read_nat r; Some (- Z.of_N n, r')
  | None => '(n, r') ← read_nat s; Some (Z.of_N n, r')
  end.

Definition hex_of (c : ascii) : option N :=
  let n := N_of_ascii c in
  if ((48 <=? n) && (n <=? 57))%N then Some (n - 48)%N
  else if ((97 <=? n) && (n <=? 102))%N then Some (n - 87)%N
  else if ((65 <=? n) && (n <=? 70))%N then Some (n - 55)%N
  else None.

(** The character of a [\uXXXX] escape, for code points below 0x80. *)
Definition unicode_escape (h1 h2 h3 h4 : ascii) : option ascii :=
  a ← hex_of h1; b ← hex_of h2; c ← hex_of h3; d ← hex_of h4;
  let n := (((a * 16 + b) * 16 + c) * 16 + d)%N in
  if (n <? 128)%N then Some (ascii_of_N n) else None.

(** The characters of a string up to its closing quote. *)
Fixpoint read_chars (s : string) : option (string * string) :=
  match s with
  | EmptyString => None
  | String "034" r => Some (EmptyString, r)
  | String "\" (String e r) =>
      let push c := prod_map (String c) id <$> read_chars r in
      match e with
      | "034" => push "034"
      | "\" => push "\"
      | "/" => push "/"
      | "b" => push "008"
      | "f" => push "012"
      | "n" => push "010"
      | "r" => push "013"
      | "t" => push "009"
      | "u" =>
          match r with
          | String h1 (String h2 (String h3 (String h4 r'))) =>
              c ← unicode_escape h1 h2 h3 h4;
              prod_map (String c) id <$> read_chars r'
          | _ => None
          end
      | _ => None
      end%char
  | String "\" EmptyString => None
  | String c r =>
      if (N_of_ascii c <? 32)%N then None
      else prod_map (String c) id <$> read_chars r
  end%char.

Fixpoint parse_value (fuel : nat) (s : string) : option (pyvalue * string) :=
  match fuel with
  | O => None
  | S fuel =>
      let s := skip_ws s in
      match read_int s with
      | Some (n, r) => Some (PyInt n, r)
      | None =>
      match eat "null" s with
      | Some r => Some (PyNone, r)
      | None =>
      match eat "true" s with
      | Some r => Some (PyBool true, r)
      | None =>
      match eat "false" s with
      | Some r => Some (PyBool false, r)
      | None =>
      match eat (String "034" EmptyString) s with
      | Some r => prod_map PyStr id <$> read_chars r
      | None =>
      match eat "[" s with
      | Some r =>
          match eat "]" (skip_ws r) with
          | Some r' => Some (PyList [], r')
          | None => prod_map PyList id <$> parse_items fuel r
          end
      | None =>
      match eat "{" s with
      | Some r =>
          match eat "}" (skip_ws r) with
          | Some r' => Some (PyDict [], r')
          | None => prod_map PyDict id <$> parse_members fuel r
          end
      | None => None
      end end end end end end end
  end
with parse_items (fuel : nat) (s : string) : option (list pyvalue * string) :=
  match fuel with
  | O => None
  | S fuel =>
      '(x, r) ← parse_value fuel s;
      let r := skip_ws r in
      match eat "," r with
      | Some r' => prod_map (cons x) id <$> parse_items fuel r'
      | None =>
          match eat "]" r with
          | Some r' => Some ([x], r')
          | None => None
          end
      end
  end
with parse_members (fuel : nat) (s : string)
    : option (list (string * pyvalue) * string) :=
  match fuel with
  | O => None
  | S fuel =>
      r ← eat (String "034" EmptyString) (skip_ws s);
      '(key, r) ← read_chars r;
      r ← eat ":" (skip_ws r);
      '(x, r) ← parse_value fuel r;
      let r := skip_ws r in
      match eat "," r with
      | Some r' => prod_map (cons (key, x)) id <$> parse_members fuel r'
      | None =>
          match eat "}" r with
          | Some r' => Some ([(key, x)], r')
          | None => None
          end
      end
  end.

(** A document is one value with nothing but blanks around it. *)
Definition loads (s : string) : option pyvalue :=
  '(d, r) ← parse_value (S (String.length s)) s;
  match skip_ws r with
  | EmptyString => Some d
  | String _ _ => None
  end.

(** *** What the calls raise on a text they do not decode *)

Definition continuation (c : ascii) : bool :=
  let n := N_of_ascii c in ((128 <=? n) && (n <? 192))%N.

(** The bytes are UTF-8 (overlong forms are not looked for). *)
Fixpoint utf8 (s : string) : bool :=
  match s with
  | EmptyString => true
  | String c r =>
      let n := N_of_ascii c in
      if (n <? 128)%N then utf8 r
      else if ((194 <=? n) && (n <? 224))%N then
        match r with
        | String c1 r => continuation c1 && utf8 r
        | _ => false
        end
      else if ((224 <=? n) && (n <? 240))%N then
        match r with
        | String c1 (String c2 r) =>
            continuation c1 && continuation c2 && utf8 r
        | _ => false
        end
      else if ((240 <=? n) && (n <? 245))%N then
        match r with
        | String c1 (String c2 (String c3 r)) =>
            continuation c1 && continuation c2 && continuation c3 && utf8 r
        | _ => false
        end
      else false
  end.

(** The number of arrays a text opens at its very start, each of which the
    decoder enters by a recursive call. *)
Fixpoint opening_run (s : string) : N :=
  match s with
  | String "[" r => N.succ (opening_run r)
  | _ => 0%N
  end%char.

(** A depth that no build of CPython reaches: the recursion limit is 1000
    unless the program raises it, which this one does not. The depth at
    which [RecursionError] starts is lower and depends on the build. *)
Definition depth_limit : N := 100000.

(** [Response.json] on a body it does not decode. *)
Definition json_raises (s : string) : error :=
  if (depth_limit <? opening_run s)%N then RecursionError else JSONDecodeError.

(** [json.loads] on bytes it does not decode: it decodes them as UTF-8
    before it reads them. *)
Definition loads_raises (s : string) : error :=
  if utf8 s then json_raises s else UnicodeDecodeError.

#[export] Instance codec : JsonCodec :=
  Build_JsonCodec pyvalue loads dumps loads_raises json_raises.

(** *** Measures used to reason on the parser *)

(** Fuel that [parse_value] needs to read a value back. *)
Fixpoint size (d : pyvalue) : nat :=
  match d with
  | PyList xs => S (list_sum (map (λ x, S (size x)) xs))
  | PyDict ms => S (list_sum (map (λ m, S (size m.2)) ms))
  | _ => 1
  end.

(** What may follow a number: anything but a digit. *)
Definition ends_number (k : string) : Prop :=
  match k with
  | EmptyString => True
  | String c _ => digit_of c = None
  end.

(** The first character of a value that [write] wrote. *)
Definition starts_value (s : string) : bool :=
  match s with
  | String c _ =>
      match c with
      | "n" | "t" | "f" | "034" | "[" | "{" | "-" => true
      | _ => bool_decide (is_Some (digit_of c))
      end%char
  | EmptyString => false
  end.

(** A value reads back, whatever follows it. *)
Definition reads_back (x : pyvalue) : Prop :=
  ∀ fuel k, (size x ≤ fuel)%nat → ends_number k →
    parse_value fuel (write x k) = Some (x, k).

(** A text that opens [n] arrays and closes none. *)
Definition opens (n : N) : string := N.iter n (String "[") EmptyString.

(** A JSON text written with apostrophes in place of double quotes. *)
Fixpoint text (s : string) : string :=
  match s with
  | EmptyString => EmptyString
  | String "'" r => String "034" (text r)
  | String c r => String c (text r)
  end%char.

End MiniJson.

(** ** The scenarios of the specification, on [MiniJson] *)

Module Scenario.
Import MiniJson.

Definition universities (name : string) : pyvalue :=
  PyList [PyDict [("name", PyStr name)]].

(** An upstream that answers every request with one university. *)
Definition upstream_Y (url : string) : response :=
  Response 200 (text "[{'name': 'Y'}]").

(** An upstream that answers with an error object and status 404. *)
Definition upstream_404 (url : string) : response :=
  Response 404 (text "{'error': 'not found'}").

(** An upstream that answers with a page that is not JSON. *)
Definition upstream_html (url : string) : response :=
  Response 502 "<html>Bad Gateway</html>".

Definition with_entry (key val : string) : world :=
  World {[key := Entry val (Some 86400)]} [].

(** An upstream whose body is nested deeper than any decoder goes. *)
Definition upstream_deep (status : Z) (url : string) : response :=
  Response status (opens 100001).

(** The one byte 0xFF, which no UTF-8 text holds. *)
Definition not_utf8 : string := String "255" EmptyString.

End Scenario.

(** ** Requests in a row *)

Section Sequences.
Context {codec : JsonCodec}.

(** The result and the store of one request, read off the two branches of
    [fetch_fish] as a function of the store alone. *)
Definition resolve (upstream : string → response) (university : string)
    (db : gmap string entry) : result json * gmap string entry :=
  let cache := redis_get university db in
  if truthy cache then
    (match cache with
     | Some c =>
         match loads c with
         | Some d => Return d
         | None =>
             Raise (except_JSONDecodeError "Error decoding cached data"
                      (loads_raises c))
         end
     | None => Raise (Error TypeError)
     end, db)
  else
    let data := upstream (url_of university) in
    match loads (body data) with
    | Some d => (Return d, <[university := Entry (dumps d) (Some 86400)]> db)
    | None =>
        (Raise (except_JSONDecodeError "Error decoding data from FishWatch API"
                  (json_raises (body data))), db)
    end.

(** One request for the same key per upstream of the list, one after the
    other: the results in order and the world at the end. *)
Fixpoint lookups (upstreams : list (string → response)) (university : string)
    (w : world) : list (result json) * world :=
  match upstreams with
  | [] => ([], w)
  | upstream :: rest =>
      let '(r, w1) := fetch_fish upstream university w in
      let '(rs, w2) := lookups rest university w1 in
      (r :: rs, w2)
  end.
End Sequences.

(** * Properties *)

(** ** One request, step by step *)

Section Resolver.
Context {codec : JsonCodec}.
Implicit Types (upstream : string → response) (w : world) (d : json).

Lemma set_then_expire key val db :
  redis_expire key 86400 (redis_set key val db) =
  <[key := Entry val (Some 86400)]> db.
Proof.
  unfold redis_expire, redis_set. rewrite lookup_insert_eq. cbn.
  apply insert_insert_eq.
Qed.

(** A hit: the value under the key is not empty. *)
Lemma fetch_fish_hit upstream university w c :
  redis_get university (rd w) = Some c →
  c ≠ EmptyString →
  fetch_fish upstream university w =
  (match loads c with
   | Some d => Return d
   | None =>
       Raise (except_JSONDecodeError "Error decoding cached data"
                (loads_raises c))
   end,
   World (rd w) (trace w ++ [RedisGet university; Print "cache hit"])).
Proof.
  intros Hget Hne. unfold fetch_fish, mbind, M_bind, rd_get. rewrite Hget.
  destruct c as [|a c]; [done|]. cbn.
  unfold try_except_JSONDecodeError, json_loads, print, log. cbn.
  rewrite <- app_assoc. cbn.
  destruct (loads (String a c)); [done|].
  by destruct (loads_raises (String a c)).
Qed.

(** A miss: no value under the key, or the empty one. *)
Lemma fetch_fish_miss upstream university w :
  truthy (redis_get university (rd w)) = false →
  fetch_fish upstream university w =
  let data := upstream (url_of university) in
  match loads (body data) with
  | Some d =>
      (Return d,
       World (<[university := Entry (dumps d) (Some 86400)]> (rd w))
         (trace w ++ [RedisGet university; Print "cache is not there in redis";
                      HttpGet (url_of university) data;
                      RedisSet university (dumps d);
                      RedisExpire university 86400]))
  | None =>
      (Raise (except_JSONDecodeError "Error decoding data from FishWatch API"
                (json_raises (body data))),
       World (rd w)
         (trace w ++ [RedisGet university; Print "cache is not there in redis";
                      HttpGet (url_of university) data]))
  end.
Proof.
  intros Hmiss. unfold fetch_fish, mbind, M_bind, rd_get. rewrite Hmiss.
  unfold try_except_JSONDecodeError, response_json, requests_get, print, log.
  cbn. fold (url_of university).
  destruct (loads (body (upstream (url_of university)))) as [d|]; cbn.
  - rewrite set_then_expire, <- !app_assoc. done.
  - rewrite <- !app_assoc.
    by destruct (json_raises (body (upstream (url_of university)))).
Qed.

Lemma except_JSONDecodeError_inv detail detail' e :
  except_JSONDecodeError detail e = HTTPException 500 detail' →
  e = JSONDecodeError ∧ detail = detail'.
Proof. destruct e; cbn; intros [=]; done. Qed.

Lemma fetch_fish_miss_result upstream university w :
  truthy (redis_get university (rd w)) = false →
  (fetch_fish upstream university w).1 =
  match loads (body (upstream (url_of university))) with
  | Some d => Return d
  | None =>
      Raise (except_JSONDecodeError "Error decoding data from FishWatch API"
               (json_raises (body (upstream (url_of university)))))
  end.
Proof.
  intros Hmiss. rewrite (fetch_fish_miss _ _ _ Hmiss). cbn.
  by destruct (loads _).
Qed.

Lemma miss_lets_through upstream university w e :
  truthy (redis_get university (rd w)) = false →
  loads (body (upstream (url_of university))) = None →
  json_raises (body (upstream (url_of university))) = e →
  e ≠ JSONDecodeError →
  (fetch_fish upstream university w).1 = Raise (Error e).
Proof.
  intros Hmiss Hd He Hne. rewrite (fetch_fish_miss_result _ _ _ Hmiss), Hd, He.
  by destruct e.
Qed.

Lemma get_unidata_reply upstream university w :
  path_segment university = true →
  (get_unidata upstream university w).1 =
  respond JsonBody (fetch_fish upstream university w).1.
Proof.
  intros Hpath. unfold get_unidata. rewrite Hpath.
  by destruct (fetch_fish upstream university w).
Qed.

Lemma truthy_true cache :
  truthy cache = true → ∃ c, cache = Some c ∧ c ≠ EmptyString.
Proof. destruct cache as [[|a c]|]; cbn; try done. eauto. Qed.

Lemma truthy_absent key w : rd w !! key = None → truthy (redis_get key (rd w)) = false.
Proof. unfold redis_get. by intros ->. Qed.

Lemma upstream_calls_app t1 t2 :
  upstream_calls (t1 ++ t2) = (upstream_calls t1 ++ upstream_calls t2)%list.
Proof. apply omap_app. Qed.

Lemma cache_writes_app t1 t2 :
  cache_writes (t1 ++ t2) = (cache_writes t1 ++ cache_writes t2)%list.
Proof. apply List.filter_app. Qed.

Lemma redis_get_entry key w e :
  rd w !! key = Some e → redis_get key (rd w) = Some (value e).
Proof. unfold redis_get. by intros ->. Qed.

(** The store after a request is the store before it, or that store with
    the entry of the key replaced. *)
Lemma fetch_fish_store upstream university w :
  rd (fetch_fish upstream university w).2 = rd w ∨
  ∃ d, rd (fetch_fish upstream university w).2 =
       <[university := Entry (dumps d) (Some 86400)]> (rd w).
Proof.
  destruct (truthy (redis_get university (rd w))) eqn:Ht.
  - apply truthy_true in Ht as (c & Hc & Hne).
    rewrite (fetch_fish_hit _ _ _ _ Hc Hne). by left.
  - rewrite (fetch_fish_miss _ _ _ Ht). cbn.
    destruct (loads _) as [d|]; cbn; eauto.
Qed.

(** ** The cache miss *)

(** C1. When the key is absent from the store, [fetch_fish] sends exactly
    one GET request upstream, for the search URL with [country=] followed
    by the key, whether the answer decodes or not. When the body of the
    answer decodes to [d], it returns [d], and the store then holds the
    serialization of [d] under the key with a time to live of exactly
    86400 seconds. *)
Theorem miss_fetches_once_and_caches upstream k w :
  rd w !! k = None →
  upstream_calls (trace (fetch_fish upstream k w).2) =
    (upstream_calls (trace w) ++
     ["http://universities.hipolabs.com/search?country=" +:+ k])%list ∧
  ∀ d,
    loads (body (upstream
      ("http://universities.hipolabs.com/search?country=" +:+ k))) = Some d →
    (fetch_fish upstream k w).1 = Return d ∧
    rd (fetch_fish upstream k w).2 !! k =
      Some {| value := dumps d; ttl := Some 86400 |}.
Proof.
  intros Habs. rewrite (fetch_fish_miss _ _ _ (truthy_absent _ _ Habs)).
  unfold url_of. cbn. split.
  - destruct (loads _); cbn; by rewrite upstream_calls_app.
  - intros d ->. cbn. by rewrite lookup_insert_eq.
Qed.

(** C4, amended. When the key is absent from the store and the body of
    the upstream answer does not decode, [fetch_fish] sends no write to
    Redis and leaves the store as it was; when the decoding failed with
    [json.JSONDecodeError], it raises the HTTP error 500 with the detail of
    the upstream decoding failure, which is what the route answers; when it
    failed with another exception, that exception leaves [fetch_fish] and
    the route answers a plain 500. *)
Theorem miss_undecodable_upstream upstream k w :
  rd w !! k = None →
  loads (body (upstream
    ("http://universities.hipolabs.com/search?country=" +:+ k))) = None →
  rd (fetch_fish upstream k w).2 = rd w ∧
  cache_writes (trace (fetch_fish upstream k w).2) = cache_writes (trace w) ∧
  (json_raises (body (upstream
     ("http://universities.hipolabs.com/search?country=" +:+ k)))
     = JSONDecodeError →
   (fetch_fish upstream k w).1 =
     Raise (HTTPException 500 "Error decoding data from FishWatch API") ∧
   (path_segment k = true →
    (get_unidata upstream k w).1 =
      Reply 500 (DetailBody "Error decoding data from FishWatch API"))) ∧
  (json_raises (body (upstream
     ("http://universities.hipolabs.com/search?country=" +:+ k)))
     ≠ JSONDecodeError →
   (fetch_fish upstream k w).1 =
     Raise (Error (json_raises (body (upstream
       ("http://universities.hipolabs.com/search?country=" +:+ k))))) ∧
   (path_segment k = true →
    (get_unidata upstream k w).1 = Reply 500 InternalServerError)).
Proof.
  intros Habs Hd. unfold get_unidata.
  rewrite (fetch_fish_miss _ _ _ (truthy_absent _ _ Habs)).
  unfold url_of. cbn. rewrite Hd. cbn.
  rewrite cache_writes_app. cbn. rewrite app_nil_r.
  split; [done|]. split; [done|]. split.
  - intros ->. cbn. split; [done|]. by intros ->.
  - intros Hne. destruct (json_raises _); cbn; try done;
      (split; [done|]); by intros ->.
Qed.

(** C6, amended. On a miss nothing is checked: the key goes into the URL
    as it is, whatever the status code of the answer any body that decodes
    is returned and cached as decoded, the upstream decoding error is
    raised exactly when decoding the body fails with
    [json.JSONDecodeError], and two upstreams that answer with the same
    bodies give the same result and the same store. *)
Theorem miss_passes_through upstream k w :
  truthy (redis_get k (rd w)) = false →
  let data := upstream ("http://universities.hipolabs.com/search?country=" +:+ k) in
  upstream_calls (trace (fetch_fish upstream k w).2) =
    (upstream_calls (trace w) ++
     ["http://universities.hipolabs.com/search?country=" +:+ k])%list ∧
  (∀ d, loads (body data) = Some d →
     (fetch_fish upstream k w).1 = Return d ∧
     (path_segment k = true →
      (get_unidata upstream k w).1 = Reply 200 (JsonBody d)) ∧
     rd (fetch_fish upstream k w).2 =
       <[k := {| value := dumps d; ttl := Some 86400 |}]> (rd w)) ∧
  ((fetch_fish upstream k w).1 =
     Raise (HTTPException 500 "Error decoding data from FishWatch API")
   ↔ loads (body data) = None ∧ json_raises (body data) = JSONDecodeError) ∧
  (∀ upstream',
     (∀ url, body (upstream' url) = body (upstream url)) →
     (fetch_fish upstream' k w).1 = (fetch_fish upstream k w).1 ∧
     rd (fetch_fish upstream' k w).2 = rd (fetch_fish upstream k w).2).
Proof.
  intros Hmiss data.
  assert (data = upstream (url_of k)) as Hdata by done.
  unfold get_unidata. rewrite (fetch_fish_miss _ _ _ Hmiss). cbn.
  rewrite <- Hdata. split; [|split; [|split]].
  - destruct (loads (body data)); cbn; by rewrite upstream_calls_app.
  - intros d ->. cbn. split; [done|]. split; [|done]. by intros ->.
  - destruct (loads (body data)); cbn.
    + split; [done|]. by intros [? _].
    + split.
      * intros [= [-> _]%except_JSONDecodeError_inv]. done.
      * by intros [_ ->].
  - intros upstream' Hsame. rewrite (fetch_fish_miss upstream' _ _ Hmiss). cbn.
    rewrite Hsame, <- Hdata. by destruct (loads (body data)).
Qed.

(** C9. An entry whose value is the empty string counts as a miss:
    [fetch_fish] asks the upstream, never raises the cache decoding error,
    and, as on an absent key, overwrites the entry with what the upstream
    answer decodes to; when the answer does not decode it raises the
    upstream decoding error, or lets through the exception of the decoding
    when that is not [json.JSONDecodeError]. *)
Theorem empty_value_is_a_miss upstream k w e :
  rd w !! k = Some e →
  value e = EmptyString →
  let data := upstream ("http://universities.hipolabs.com/search?country=" +:+ k) in
  upstream_calls (trace (fetch_fish upstream k w).2) =
    (upstream_calls (trace w) ++
     ["http://universities.hipolabs.com/search?country=" +:+ k])%list ∧
  (fetch_fish upstream k w).1 ≠
    Raise (HTTPException 500 "Error decoding cached data") ∧
  match loads (body data) with
  | Some d =>
      (fetch_fish upstream k w).1 = Return d ∧
      rd (fetch_fish upstream k w).2 !! k =
        Some {| value := dumps d; ttl := Some 86400 |}
  | None =>
      (fetch_fish upstream k w).1 =
        Raise (match json_raises (body data) with
               | JSONDecodeError =>
                   HTTPException 500 "Error decoding data from FishWatch API"
               | e => Error e
               end)
  end.
Proof.
  intros He Hv data.
  assert (truthy (redis_get k (rd w)) = false) as Hmiss.
  { rewrite (redis_get_entry _ _ _ He), Hv. done. }
  rewrite (fetch_fish_miss _ _ _ Hmiss). fold (url_of k) in data. cbn.
  fold data. destruct (loads (body data)); cbn;
    rewrite upstream_calls_app, ?lookup_insert_eq; try done.
  by destruct (json_raises (body data)).
Qed.

(** ** The cache hit *)

(** C2. When the store holds under the key a value that decodes to [d],
    [fetch_fish] returns [d] and sends nothing upstream. The first
    hypothesis says of the decoder that the empty text is not JSON. *)
Theorem hit_returns_decoded upstream k w e d :
  loads EmptyString = None →
  rd w !! k = Some e →
  loads (value e) = Some d →
  (fetch_fish upstream k w).1 = Return d ∧
  upstream_calls (trace (fetch_fish upstream k w).2) = upstream_calls (trace w).
Proof.
  intros Hempty He Hd.
  assert (value e ≠ EmptyString) as Hne by (intros Heq; congruence).
  rewrite (fetch_fish_hit _ _ _ _ (redis_get_entry _ _ _ He) Hne), Hd. cbn.
  rewrite upstream_calls_app. cbn. by rewrite app_nil_r.
Qed.

(** C3, amended. When the store holds under the key a value that is not
    empty and does not decode, [fetch_fish] sends nothing upstream and
    leaves the store, the entry included, as it was; when the decoding
    failed with [json.JSONDecodeError], it raises the HTTP error 500 with
    the detail of the cache decoding failure, which is what the route
    answers; when it failed with another exception, that exception leaves
    [fetch_fish] and the route answers a plain 500. *)
Theorem hit_undecodable_entry upstream k w e :
  rd w !! k = Some e →
  value e ≠ EmptyString →
  loads (value e) = None →
  upstream_calls (trace (fetch_fish upstream k w).2) = upstream_calls (trace w) ∧
  rd (fetch_fish upstream k w).2 = rd w ∧
  (loads_raises (value e) = JSONDecodeError →
   (fetch_fish upstream k w).1 =
     Raise (HTTPException 500 "Error decoding cached data") ∧
   (path_segment k = true →
    (get_unidata upstream k w).1 =
      Reply 500 (DetailBody "Error decoding cached data"))) ∧
  (loads_raises (value e) ≠ JSONDecodeError →
   (fetch_fish upstream k w).1 = Raise (Error (loads_raises (value e))) ∧
   (path_segment k = true →
    (get_unidata upstream k w).1 = Reply 500 InternalServerError)).
Proof.
  intros He Hne Hd. unfold get_unidata.
  rewrite (fetch_fish_hit _ _ _ _ (redis_get_entry _ _ _ He) Hne), Hd. cbn.
  rewrite upstream_calls_app. cbn. rewrite app_nil_r.
  split; [done|]. split; [done|]. split.
  - intros ->. cbn. split; [done|]. by intros ->.
  - intros Hraises. destruct (loads_raises _); cbn; try done;
      (split; [done|]); by intros ->.
Qed.

(** ** The root route *)

(** C8. The root route takes no parameter, answers with status 200 and the
    fixed greeting, and leaves the world, the store included, as it was. *)
Theorem root_greets_and_changes_nothing w :
  get_root w = (Reply 200 (TextBody "hello worlds"), w) ∧
  rd (get_root w).2 = rd w.
Proof. done. Qed.

(** ** Frame *)

(** C10. Whatever the store and whatever the outcome, [fetch_fish] leaves
    the entry of every key other than the one looked up as it was. *)
Theorem fetch_fish_frame upstream k k' w :
  k' ≠ k →
  rd (fetch_fish upstream k w).2 !! k' = rd w !! k'.
Proof.
  intros Hne. destruct (fetch_fish_store upstream k w) as [->|[d ->]]; [done|].
  by rewrite lookup_insert_ne.
Qed.

End Resolver.

(** ** Reading back what was cached *)

Section Reread.
Context {codec : JsonCodec}.
Implicit Types (upstream : string → response) (w : world) (d : json).

(** On a fresh key whose upstream answer decodes to [d], a second lookup
    gives the result of the first with no further request upstream exactly
    when the serialization of [d] decodes to [d]. *)
Lemma reread_iff_roundtrip upstream upstream' k w d :
  loads EmptyString = None →
  rd w !! k = None →
  loads (body (upstream (url_of k))) = Some d →
  let w1 := (fetch_fish upstream k w).2 in
  ((fetch_fish upstream' k w1).1 = (fetch_fish upstream k w).1 ∧
   upstream_calls (trace (fetch_fish upstream' k w1).2) =
     (upstream_calls (trace w) ++ [url_of k])%list)
  ↔ loads (dumps d) = Some d.
Proof.
  intros Hempty Habs Hd w1. subst w1.
  rewrite (fetch_fish_miss upstream _ _ (truthy_absent _ _ Habs)).
  cbn. rewrite Hd. cbn.
  set (w1 := World _ _).
  assert (redis_get k (rd w1) = Some (dumps d)) as Hget.
  { unfold redis_get. cbn. by rewrite lookup_insert_eq. }
  destruct (decide (dumps d = EmptyString)) as [Heq|Hne].
  - assert (truthy (redis_get k (rd w1)) = false) as Hmiss
      by (by rewrite Hget, Heq).
    rewrite (fetch_fish_miss _ _ _ Hmiss). subst w1. cbn.
    split; [|rewrite Heq; congruence].
    intros [_ Hcalls]. exfalso. revert Hcalls.
    destruct (loads (body (upstream' (url_of k)))); cbn;
      rewrite !upstream_calls_app; cbn; intros Hcalls; apply (f_equal length) in Hcalls;
      rewrite !length_app in Hcalls; cbn in Hcalls; lia.
  - rewrite (fetch_fish_hit _ _ _ _ Hget Hne). subst w1. cbn.
    rewrite !upstream_calls_app. cbn. rewrite app_nil_r. split.
    + intros [Hr _]. destruct (loads (dumps d)); congruence.
    + by intros ->.
Qed.

Context `{!JsonLaws codec}.

Lemma dumps_not_empty d : dumps d ≠ EmptyString.
Proof.
  intros Heq. pose proof (loads_dumps d) as Hd.
  rewrite Heq, loads_empty in Hd. done.
Qed.

(** C5. On a key absent from the store whose upstream answer decodes to
    [d], a lookup followed by a second lookup of the same key returns [d]
    both times, and the upstream is asked once, by the first lookup only:
    the second reads back the serialization of [d], which decodes to [d]. *)
Theorem reread_returns_the_same upstream upstream' k w d :
  rd w !! k = None →
  loads (body (upstream
    ("http://universities.hipolabs.com/search?country=" +:+ k))) = Some d →
  let w1 := (fetch_fish upstream k w).2 in
  (fetch_fish upstream k w).1 = Return d ∧
  (fetch_fish upstream' k w1).1 = Return d ∧
  upstream_calls (trace (fetch_fish upstream' k w1).2) =
    (upstream_calls (trace w) ++
     ["http://universities.hipolabs.com/search?country=" +:+ k])%list ∧
  loads (dumps d) = Some d.
Proof.
  intros Habs Hd w1.
  pose proof (reread_iff_roundtrip upstream upstream' k w d
                loads_empty Habs Hd) as [_ Hback].
  destruct (Hback (loads_dumps d)) as [Hsame Hcalls].
  assert ((fetch_fish upstream k w).1 = Return d) as Hfirst.
  { rewrite (fetch_fish_miss _ _ _ (truthy_absent _ _ Habs)).
    unfold url_of. cbn. by rewrite Hd. }
  subst w1. rewrite Hsame, Hfirst. repeat split; try done.
  apply loads_dumps.
Qed.

(** *** Every entry was written by [fetch_fish] *)

Lemma written_by_fetch_later w db t key e :
  written_by_fetch w key e →
  written_by_fetch (World db (trace w ++ t)) key e.
Proof.
  intros (resp & d & Hin & Hd & He). exists resp, d. cbn.
  split; [|done]. apply elem_of_app. by left.
Qed.

Lemma fetch_fish_store_inv upstream university w :
  store_inv w → store_inv (fetch_fish upstream university w).2.
Proof.
  intros Hinv key e. destruct (truthy (redis_get university (rd w))) eqn:Ht.
  - apply truthy_true in Ht as (c & Hc & Hne).
    rewrite (fetch_fish_hit _ _ _ _ Hc Hne). cbn. intros He.
    by apply written_by_fetch_later, Hinv.
  - rewrite (fetch_fish_miss _ _ _ Ht). cbn.
    destruct (loads (body (upstream (url_of university)))) as [d|] eqn:Hd; cbn.
    + destruct (decide (university = key)) as [->|Hne].
      * rewrite lookup_insert_eq. intros [= <-].
        exists (upstream (url_of key)), d. cbn. split; [|done].
        apply elem_of_app. right. set_solver.
      * rewrite lookup_insert_ne by done. intros He.
        by apply written_by_fetch_later, Hinv.
    + intros He. by apply written_by_fetch_later, Hinv.
Qed.

Lemma step_store_inv w w' : step w w' → store_inv w → store_inv w'.
Proof.
  intros Hstep Hinv. destruct Hstep as [w|upstream university w|key e seconds w He Httl].
  - done.
  - by apply fetch_fish_store_inv.
  - intros key' e'. cbn. intros [Hne He']%lookup_delete_Some.
    destruct (Hinv _ _ He') as (resp & d & ?). by exists resp, d.
Qed.

Lemma reachable_store_inv w : reachable w → store_inv w.
Proof.
  revert w. apply rtc_ind_r.
  - intros key e. cbn. by rewrite lookup_empty.
  - intros w w' _ Hstep IH. by eapply step_store_inv.
Qed.

(** C7. In every store reached from the empty one by requests and
    expirations, each entry is the serialization of a value decoded from an
    upstream answer to the request for its key; so a lookup of a key that
    is present returns the decoded value, and no lookup raises the cache
    decoding error. *)
Theorem reachable_entries_decode w :
  reachable w →
  (∀ key e, rd w !! key = Some e → written_by_fetch w key e) ∧
  (∀ upstream key e, rd w !! key = Some e →
     ∃ d, loads (value e) = Some d ∧
          (fetch_fish upstream key w).1 = Return d) ∧
  (∀ upstream key,
     (fetch_fish upstream key w).1 ≠
       Raise (HTTPException 500 "Error decoding cached data")).
Proof.
  intros Hinv%reachable_store_inv.
  assert (∀ upstream key e, rd w !! key = Some e →
            ∃ d, loads (value e) = Some d ∧
                 (fetch_fish upstream key w).1 = Return d) as Hhit.
  { intros upstream key e He.
    destruct (Hinv _ _ He) as (resp & d & _ & _ & ->). exists d. cbn.
    split; [apply loads_dumps|].
    rewrite (fetch_fish_hit _ _ _ (dumps d)
               (redis_get_entry _ _ _ He) (dumps_not_empty d)).
    by rewrite loads_dumps. }
  split; [done|]. split; [done|].
  intros upstream key. destruct (rd w !! key) as [e|] eqn:He.
  - destruct (Hhit upstream _ _ He) as (d & _ & ->). done.
  - rewrite (fetch_fish_miss _ _ _ (truthy_absent _ _ He)). cbn.
    destruct (loads _); [done|]. by destruct (json_raises _).
Qed.

End Reread.

(** ** The codec of [MiniJson] reads back what it writes *)

Module MiniJsonFacts.
Import MiniJson.

Lemma pyvalue_ind' (P : pyvalue → Prop) :
  P PyNone →
  (∀ b, P (PyBool b)) →
  (∀ n, P (PyInt n)) →
  (∀ s, P (PyStr s)) →
  (∀ xs, Forall P xs → P (PyList xs)) →
  (∀ ms, Forall (λ m, P m.2) ms → P (PyDict ms)) →
  ∀ d, P d.
Proof.
  intros Hnone Hbool Hint Hstr Hlist Hdict.
  refine (fix IH (d : pyvalue) : P d :=
    match d with
    | PyNone => Hnone
    | PyBool b => Hbool b
    | PyInt n => Hint n
    | PyStr s => Hstr s
    | PyList xs =>
        Hlist xs ((fix IHs (xs : list pyvalue) : Forall P xs :=
          match xs with
          | [] => List.Forall_nil _
          | x :: xs => List.Forall_cons _ x xs (IH x) (IHs xs)
          end) xs)
    | PyDict ms =>
        Hdict ms ((fix IHs (ms : list (string * pyvalue))
            : Forall (λ m, P m.2) ms :=
          match ms with
          | [] => List.Forall_nil _
          | m :: ms => List.Forall_cons _ m ms (IH m.2) (IHs ms)
          end) ms)
    end).
Qed.

(** *** Numbers *)

Lemma read_digits_write_uint u k :
  ends_number k → read_digits (write_uint u k) = (u, k).
Proof.
  intros Hk. induction u as [|u IH|u IH|u IH|u IH|u IH|u IH|u IH|u IH|u IH|u IH];
    cbn; rewrite ?IH; try done.
  destruct k as [|c k]; [done|]. cbn in *. by rewrite Hk.
Qed.

Lemma to_uint_norm n : unorm (N.to_uint n) = N.to_uint n.
Proof.
  rewrite <- (DecimalN.Unsigned.of_to n) at 2.
  symmetry. apply DecimalN.Unsigned.to_of.
Qed.

Lemma to_uint_not_nil n : N.to_uint n ≠ Nil.
Proof.
  rewrite <- to_uint_norm. unfold unorm. by destruct (nzhead _).
Qed.

Lemma read_nat_write_nat n k :
  ends_number k → read_nat (write_nat n k) = Some (n, k).
Proof.
  intros Hk. unfold read_nat, write_nat. rewrite read_digits_write_uint by done.
  destruct (uint_eq_dec _ _) as [_|Hne].
  - by rewrite DecimalN.Unsigned.of_to.
  - by destruct Hne; apply to_uint_norm.
Qed.

Lemma starts_value_write_nat n k : starts_value (write_nat n k) = true.
Proof.
  unfold write_nat. pose proof (to_uint_not_nil n).
  by destruct (N.to_uint n).
Qed.

Lemma eat_minus_write_nat n k :
  eat "-" (write_nat n k) = None.
Proof.
  unfold write_nat. pose proof (to_uint_not_nil n).
  by destruct (N.to_uint n).
Qed.

Lemma read_int_write_int n k :
  ends_number k → read_int (write_int n k) = Some (n, k).
Proof.
  intros Hk. unfold read_int. destruct n as [|p|p]; cbn [write_int Z.to_N].
  - by rewrite eat_minus_write_nat, read_nat_write_nat.
  - by rewrite eat_minus_write_nat, read_nat_write_nat.
  - assert (eat "-" (String "-" (write_nat (N.pos p) k))
            = Some (write_nat (N.pos p) k)) as -> by done.
    by rewrite read_nat_write_nat.
Qed.

(** *** Strings *)

Lemma read_chars_write_char c k :
  read_chars (write_char c k) = prod_map (String c) id <$> read_chars k.
Proof. by destruct c as [[] [] [] [] [] [] [] []]. Qed.

Lemma read_chars_write_chars s k :
  read_chars (write_chars s (String "034" k)) = Some (s, k).
Proof.
  induction s as [|c s IH]; [done|].
  cbn [write_chars]. by rewrite read_chars_write_char, IH.
Qed.

(** *** Values *)

Lemma starts_value_spec s :
  starts_value s = true →
  skip_ws s = s ∧ eat "]" s = None ∧ eat "}" s = None.
Proof.
  destruct s as [|c s]; [done|].
  by destruct c as [[] [] [] [] [] [] [] []].
Qed.

Lemma starts_value_write d k : starts_value (write d k) = true.
Proof.
  destruct d as [|[]|[]| |[]|[]]; try done; apply starts_value_write_nat.
Qed.

Lemma parse_value_space fuel s :
  parse_value fuel (String " " s) = parse_value fuel s.
Proof. by destruct fuel. Qed.

Lemma parse_items_space fuel s :
  parse_items fuel (String " " s) = parse_items fuel s.
Proof. destruct fuel; [done|]. cbn [parse_items]. by rewrite parse_value_space. Qed.

Lemma parse_members_space fuel s :
  parse_members fuel (String " " s) = parse_members fuel s.
Proof. by destruct fuel. Qed.

Lemma parse_value_str fuel r :
  parse_value (S fuel) (String "034" r) = prod_map PyStr id <$> read_chars r.
Proof. done. Qed.

Lemma parse_value_list fuel r :
  parse_value (S fuel) (String "[" r) =
  match eat "]" (skip_ws r) with
  | Some r' => Some (PyList [], r')
  | None => prod_map PyList id <$> parse_items fuel r
  end.
Proof. done. Qed.

Lemma parse_value_dict fuel r :
  parse_value (S fuel) (String "{" r) =
  match eat "}" (skip_ws r) with
  | Some r' => Some (PyDict [], r')
  | None => prod_map PyDict id <$> parse_members fuel r
  end.
Proof. done. Qed.

(** A member of an object as [write] lays it out. *)
Abbreviation write_member :=
  (λ (m : string * pyvalue) k,
     write_str m.1 (String ":" (String " " (write m.2 k)))).

Lemma ends_number_write_rest {A} (w : A → string → string) close xs k :
  digit_of close = None → ends_number (write_rest w close xs k).
Proof. by destruct xs. Qed.

Lemma list_sum_map_cons {A} (f : A → nat) x xs :
  list_sum (map f (x :: xs)) = (f x + list_sum (map f xs))%nat.
Proof. done. Qed.

Lemma size_list x xs :
  size (PyList (x :: xs)) = S (S (size x) + list_sum (map (λ x, S (size x)) xs)).
Proof. done. Qed.

Lemma size_dict m ms :
  size (PyDict (m :: ms)) =
  S (S (size m.2) + list_sum (map (λ m, S (size m.2)) ms)).
Proof. done. Qed.

Lemma size_pos d : (1 ≤ size d)%nat.
Proof. destruct d; cbn [size]; lia. Qed.

Lemma parse_items_write xs :
  Forall reads_back xs →
  ∀ x fuel k,
    reads_back x →
    (S (size x) + list_sum (map (λ x, S (size x)) xs) ≤ fuel)%nat →
    parse_items fuel (write x (write_rest write "]" xs k)) = Some (x :: xs, k).
Proof.
  induction 1 as [|y ys Hy Hys IH]; intros x [|fuel] k Hx Hfuel;
    rewrite ?list_sum_map_cons in Hfuel; cbn [map list_sum] in Hfuel;
    try lia; cbn [parse_items].
  - rewrite Hx; [|lia|by apply ends_number_write_rest]. done.
  - rewrite Hx; [|lia|by apply ends_number_write_rest].
    change (write_rest write "]" (y :: ys) k)
      with (String "," (String " " (write y (write_rest write "]" ys k)))).
    cbn [mbind option_bind].
    change (eat "," (skip_ws (String "," ?s))) with (Some s).
    cbn match. rewrite parse_items_space, IH by (done || lia). done.
Qed.

Lemma parse_members_write ms :
  Forall (λ m, reads_back m.2) ms →
  ∀ m fuel k,
    reads_back m.2 →
    (S (size m.2) + list_sum (map (λ m, S (size m.2)) ms) ≤ fuel)%nat →
    parse_members fuel (write_member m (write_rest write_member "}" ms k))
    = Some (m :: ms, k).
Proof.
  induction 1 as [|y ys Hy Hys IH]; intros [key x] [|fuel] k Hx Hfuel;
    rewrite ?list_sum_map_cons in Hfuel; cbn [map list_sum fst snd] in Hfuel;
    try lia; cbn [parse_members fst snd] in *.
  - unfold write_str at 1.
    change (eat (String "034" EmptyString) (skip_ws (String "034" ?s)))
      with (Some s).
    cbn [mbind option_bind]. rewrite read_chars_write_chars.
    cbn [mbind option_bind].
    change (eat ":" (skip_ws (String ":" ?s))) with (Some s).
    cbn [mbind option_bind].
    rewrite parse_value_space, Hx; [|lia|by apply ends_number_write_rest]. done.
  - unfold write_str at 1.
    change (eat (String "034" EmptyString) (skip_ws (String "034" ?s)))
      with (Some s).
    cbn [mbind option_bind]. rewrite read_chars_write_chars.
    cbn [mbind option_bind].
    change (eat ":" (skip_ws (String ":" ?s))) with (Some s).
    cbn [mbind option_bind].
    rewrite parse_value_space, Hx; [|lia|by apply ends_number_write_rest].
    change (write_rest write_member "}" (y :: ys) k)
      with (String "," (String " "
              (write_member y (write_rest write_member "}" ys k)))).
    cbn [mbind option_bind].
    change (eat "," (skip_ws (String "," ?s))) with (Some s).
    cbn match. rewrite parse_members_space, IH by (done || lia). done.
Qed.

Lemma parse_value_write d : reads_back d.
Proof.
  induction d as [|b|n|s|xs IH|ms IH] using pyvalue_ind';
    intros [|fuel] k Hfuel Hk;
    try (match type of Hfuel with
         | (size ?d ≤ 0)%nat => pose proof (size_pos d); lia
         end).
  - done.
  - by destruct b.
  - cbn [parse_value write].
    assert (starts_value (write_int n k) = true) as Hs
      by apply (starts_value_write (PyInt n)).
    destruct (starts_value_spec _ Hs) as [-> _].
    by rewrite read_int_write_int.
  - cbn [write]. unfold write_str.
    by rewrite parse_value_str, read_chars_write_chars.
  - destruct IH as [|x xs Hx Hxs]; [done|].
    cbn [write write_seq]. rewrite parse_value_list.
    destruct (starts_value_spec _
      (starts_value_write x (write_rest write "]" xs k))) as (-> & -> & _).
    rewrite parse_items_write; [done..|]. rewrite size_list in Hfuel. lia.
  - destruct IH as [|m ms Hm Hms]; [done|].
    cbn [write write_seq]. rewrite parse_value_dict.
    unfold write_str at 1.
    change (eat "}" (skip_ws (String "034" ?s))) with (@None string).
    cbn match.
    change (String "034" (write_chars ?a (String "034" ?b)))
      with (write_str a b).
    rewrite (parse_members_write ms Hms m); [done..|].
    rewrite size_dict in Hfuel. lia.
Qed.

(** *** A text is at least as long as the fuel its value needs *)

Ltac count_chars := cbv -[String.length]; cbn [String.length]; lia.

Lemma length_write_char c k :
  (S (String.length k) ≤ String.length (write_char c k))%nat.
Proof. destruct c as [[] [] [] [] [] [] [] []]; count_chars. Qed.

Lemma length_write_chars s k :
  (String.length k ≤ String.length (write_chars s k))%nat.
Proof.
  induction s as [|c s IH]; cbn [write_chars]; [done|].
  pose proof (length_write_char c (write_chars s k)). lia.
Qed.

Lemma length_write_str s k :
  (S (String.length k) ≤ String.length (write_str s k))%nat.
Proof.
  unfold write_str. cbn [String.length].
  pose proof (length_write_chars s (String "034" k)) as H.
  cbn [String.length] in H. lia.
Qed.

Lemma length_write_uint u k :
  (String.length k ≤ String.length (write_uint u k))%nat.
Proof. induction u; cbn [write_uint String.length]; lia. Qed.

Lemma length_write_nat n k :
  (S (String.length k) ≤ String.length (write_nat n k))%nat.
Proof.
  unfold write_nat. pose proof (to_uint_not_nil n) as Hn.
  destruct (N.to_uint n) as [|u|u|u|u|u|u|u|u|u|u]; [done|..];
    cbn [write_uint String.length]; pose proof (length_write_uint u k); lia.
Qed.

Lemma length_write_int n k :
  (S (String.length k) ≤ String.length (write_int n k))%nat.
Proof.
  destruct n as [|p|p]; cbn [write_int String.length];
    [apply length_write_nat..|].
  pose proof (length_write_nat (N.pos p) k). lia.
Qed.

Lemma length_write_rest {A} (w : A → string → string) (sz : A → nat) close xs k :
  Forall (λ x, ∀ k, (sz x + String.length k ≤ String.length (w x k))%nat) xs →
  (list_sum (map (λ x, S (sz x)) xs) + String.length k
   < String.length (write_rest w close xs k))%nat.
Proof.
  induction 1 as [|x xs Hx Hxs IH]; [cbn; lia|].
  rewrite list_sum_map_cons.
  change (write_rest w close (x :: xs) k)
    with (String "," (String " " (w x (write_rest w close xs k)))).
  cbn [String.length]. pose proof (Hx (write_rest w close xs k)). lia.
Qed.

Lemma length_write d :
  ∀ k, (size d + String.length k ≤ String.length (write d k))%nat.
Proof.
  induction d as [|b|n|s|xs IH|ms IH] using pyvalue_ind'; intros k.
  - count_chars.
  - destruct b; count_chars.
  - apply length_write_int.
  - apply length_write_str.
  - destruct IH as [|x xs Hx Hxs]; [count_chars|].
    rewrite size_list. cbn [write write_seq String.length].
    pose proof (length_write_rest write size "]" xs k Hxs).
    pose proof (Hx (write_rest write "]" xs k)). lia.
  - destruct IH as [|m ms Hm Hms]; [count_chars|].
    rewrite size_dict. cbn [write write_seq String.length].
    assert (∀ (m : string * pyvalue) k,
              (∀ k, (size m.2 + String.length k
                     ≤ String.length (write m.2 k))%nat) →
              (size m.2 + String.length k
               ≤ String.length (write_member m k))%nat) as Hmember.
    { intros m' k' Hm'.
      pose proof (length_write_str m'.1
                    (String ":" (String " " (write m'.2 k')))) as H.
      cbn [String.length] in H. pose proof (Hm' k'). lia. }
    pose proof (length_write_rest write_member (λ m, size m.2) "}" ms k) as Hrest.
    pose proof (Hmember m (write_rest write_member "}" ms k) Hm).
    assert (Forall (λ m : string * pyvalue, ∀ k,
              (size m.2 + String.length k
               ≤ String.length (write_member m k))%nat) ms) as Hall.
    { eapply Forall_impl; [exact Hms|]. intros m' Hm' k'. by apply Hmember. }
    specialize (Hrest Hall). lia.
Qed.

(** *** The laws *)

Example loads_universities :
  loads (text "[{'name': 'X', 'web_pages': ['http://x.edu'], 'rank': -12}]")
  = Some (PyList [PyDict [("name", PyStr "X");
                          ("web_pages", PyList [PyStr "http://x.edu"]);
                          ("rank", PyInt (-12))]]).
Proof. reflexivity. Qed.

Example loads_blanks_and_escapes :
  loads (text " { 'a' : [ true , false , null ] , 'b' : 'x\u0041\n' } ")
  = Some (PyDict [("a", PyList [PyBool true; PyBool false; PyNone]);
                  ("b", PyStr (String "x" (String "A" (String "010" ""))))]).
Proof. reflexivity. Qed.

Example loads_rejects :
  loads "not json" = None ∧ loads "012" = None ∧ loads "[1, 2" = None ∧
  loads "1 2" = None ∧ loads (text "{'a' 1}") = None.
Proof. repeat split; reflexivity. Qed.

Example dumps_layout :
  dumps (PyList [PyDict [("name", PyStr "Y"); ("n", PyInt 0)]; PyNone])
  = text "[{'name': 'Y', 'n': 0}, null]".
Proof. reflexivity. Qed.

Lemma mini_loads_dumps d : loads (dumps d) = Some d.
Proof.
  unfold loads, dumps. rewrite parse_value_write; [done| |done].
  pose proof (length_write d EmptyString). cbn [String.length] in *. lia.
Qed.

Lemma mini_loads_empty : loads EmptyString = None.
Proof. done. Qed.

#[export] Instance laws : JsonLaws MiniJson.codec.
Proof. split; [apply mini_loads_empty|apply mini_loads_dumps]. Qed.

(** *** A text that only opens arrays *)

Lemma opens_succ n : opens (N.succ n) = String "[" (opens n).
Proof. unfold opens. by rewrite N.iter_succ. Qed.

Lemma opening_run_opens n : opening_run (opens n) = n.
Proof.
  induction n as [|n IH] using N.peano_ind; [done|].
  rewrite opens_succ. cbn [opening_run]. by rewrite IH.
Qed.

Lemma eat_close_opens n : eat "]" (skip_ws (opens n)) = None.
Proof.
  induction n as [|n _] using N.peano_ind; [done|]. by rewrite opens_succ.
Qed.

Lemma parse_opens fuel :
  ∀ n, parse_value fuel (opens n) = None ∧ parse_items fuel (opens n) = None.
Proof.
  induction fuel as [|fuel IH]; intros n; [done|]. split.
  - induction n as [|n _] using N.peano_ind; [done|].
    rewrite opens_succ, parse_value_list, eat_close_opens.
    by rewrite (proj2 (IH n)).
  - cbn [parse_items]. by rewrite (proj1 (IH n)).
Qed.

Lemma loads_opens n : loads (opens n) = None.
Proof. unfold loads. by rewrite (proj1 (parse_opens _ n)). Qed.

Lemma json_raises_deep n :
  (depth_limit < n)%N → json_raises (opens n) = RecursionError.
Proof.
  intros Hn. unfold json_raises. rewrite opening_run_opens.
  by apply N.ltb_lt in Hn as ->.
Qed.

End MiniJsonFacts.

(** ** The scenarios of the specification, run *)

Module Runs.
Import MiniJson Scenario.

Lemma miss_fetches_once_and_caches_witness :
  upstream_calls (trace (fetch_fish upstream_Y "canada" init).2) =
    ["http://universities.hipolabs.com/search?country=canada"] ∧
  (fetch_fish upstream_Y "canada" init).1 = Return (universities "Y") ∧
  rd (fetch_fish upstream_Y "canada" init).2 !! "canada" =
    Some (Entry (text "[{'name': 'Y'}]") (Some 86400)).
Proof.
  destruct (miss_fetches_once_and_caches (codec:=codec) upstream_Y "canada"
              init eq_refl) as [Hcalls Hdecoded].
  destruct (Hdecoded (universities "Y") eq_refl) as [Hresult Hstore].
  exact (conj Hcalls (conj Hresult Hstore)).
Defined.

Lemma miss_undecodable_upstream_witness :
  (fetch_fish upstream_html "fr" init).1 =
    Raise (HTTPException 500 "Error decoding data from FishWatch API") ∧
  (get_unidata upstream_html "fr" init).1 =
    Reply 500 (DetailBody "Error decoding data from FishWatch API") ∧
  rd (fetch_fish upstream_html "fr" init).2 = ∅ ∧
  cache_writes (trace (fetch_fish upstream_html "fr" init).2) = [].
Proof.
  destruct (miss_undecodable_upstream (codec:=codec) upstream_html "fr" init
              eq_refl eq_refl) as (Hstore & Hwrites & Herror & _).
  destruct (Herror eq_refl) as [Hresult Hreply].
  exact (conj Hresult (conj (Hreply eq_refl) (conj Hstore Hwrites))).
Defined.

Lemma hit_returns_decoded_witness :
  (fetch_fish upstream_html "usa" (with_entry "usa" (text "[{'name': 'X'}]"))).1
    = Return (universities "X") ∧
  upstream_calls
    (trace (fetch_fish upstream_html "usa"
              (with_entry "usa" (text "[{'name': 'X'}]"))).2) = [].
Proof.
  apply (hit_returns_decoded (codec:=codec) upstream_html "usa"
           (with_entry "usa" (text "[{'name': 'X'}]"))
           (Entry (text "[{'name': 'X'}]") (Some 86400)) (universities "X"));
    reflexivity.
Defined.

Lemma hit_undecodable_entry_witness :
  (fetch_fish upstream_Y "uk" (with_entry "uk" "not json")).1 =
    Raise (HTTPException 500 "Error decoding cached data") ∧
  (get_unidata upstream_Y "uk" (with_entry "uk" "not json")).1 =
    Reply 500 (DetailBody "Error decoding cached data") ∧
  upstream_calls (trace (fetch_fish upstream_Y "uk" (with_entry "uk" "not json")).2)
    = [] ∧
  rd (fetch_fish upstream_Y "uk" (with_entry "uk" "not json")).2 =
    {["uk" := Entry "not json" (Some 86400)]}.
Proof.
  destruct (hit_undecodable_entry (codec:=codec) upstream_Y "uk"
              (with_entry "uk" "not json") (Entry "not json" (Some 86400))
              eq_refl ltac:(discriminate) eq_refl)
    as (Hcalls & Hstore & Herror & _).
  destruct (Herror eq_refl) as [Hresult Hreply].
  exact (conj Hresult (conj (Hreply eq_refl) (conj Hcalls Hstore))).
Defined.

(** C3 as it is stated fails on two entries that do not decode. An entry
    whose value is the empty string is a miss: the lookup goes upstream,
    returns what the upstream sent and overwrites the entry. An entry whose
    value is not UTF-8 makes [json.loads] raise [UnicodeDecodeError], which
    the [except] clause lets through: the answer is a plain 500 without
    the detail. *)
Lemma empty_entry_is_no_decode_error :
  let w := with_entry "uk" EmptyString in
  let w' := with_entry "uk" not_utf8 in
  (rd w !! "uk" = Some (Entry EmptyString (Some 86400)) ∧
   loads EmptyString = None ∧
   (fetch_fish upstream_Y "uk" w).1 = Return (universities "Y") ∧
   (fetch_fish upstream_Y "uk" w).1 ≠
     Raise (HTTPException 500 "Error decoding cached data") ∧
   upstream_calls (trace (fetch_fish upstream_Y "uk" w).2) =
     ["http://universities.hipolabs.com/search?country=uk"] ∧
   rd (fetch_fish upstream_Y "uk" w).2 !! "uk" =
     Some (Entry (text "[{'name': 'Y'}]") (Some 86400))) ∧
  (rd w' !! "uk" = Some (Entry not_utf8 (Some 86400)) ∧
   not_utf8 ≠ EmptyString ∧
   loads not_utf8 = None ∧
   (fetch_fish upstream_Y "uk" w').1 = Raise (Error UnicodeDecodeError) ∧
   (fetch_fish upstream_Y "uk" w').1 ≠
     Raise (HTTPException 500 "Error decoding cached data") ∧
   (get_unidata upstream_Y "uk" w').1 = Reply 500 InternalServerError).
Proof.
  assert ((fetch_fish upstream_Y "uk" (with_entry "uk" EmptyString)).1
          = Return (universities "Y")) as Hempty by reflexivity.
  assert ((fetch_fish upstream_Y "uk" (with_entry "uk" not_utf8)).1
          = Raise (Error UnicodeDecodeError)) as Hbytes by reflexivity.
  cbv zeta. rewrite Hempty, Hbytes. unfold not_utf8.
  repeat split; try reflexivity; discriminate.
Qed.

Lemma deep_body_raises status k w :
  truthy (redis_get k (rd w)) = false →
  (fetch_fish (upstream_deep status) k w).1 = Raise (Error RecursionError).
Proof.
  intros Hmiss.
  apply (miss_lets_through (codec:=codec) (upstream_deep status) k w
           RecursionError Hmiss (MiniJsonFacts.loads_opens 100001)
           (MiniJsonFacts.json_raises_deep 100001 eq_refl)).
  discriminate.
Qed.

(** C4 as it is stated fails on a body nested too deep: it does not
    decode, the decoding raises [RecursionError], which the [except]
    clause lets through, and the answer is a plain 500 without the detail
    of the upstream decoding failure. *)
Lemma deep_body_is_no_decode_error :
  rd init !! "fr" = None ∧
  loads (body (upstream_deep 200
    "http://universities.hipolabs.com/search?country=fr")) = None ∧
  (fetch_fish (upstream_deep 200) "fr" init).1 = Raise (Error RecursionError) ∧
  (fetch_fish (upstream_deep 200) "fr" init).1 ≠
    Raise (HTTPException 500 "Error decoding data from FishWatch API") ∧
  (get_unidata (upstream_deep 200) "fr" init).1 = Reply 500 InternalServerError.
Proof.
  pose proof (deep_body_raises 200 "fr" init eq_refl) as Hresult.
  split; [done|]. split; [apply MiniJsonFacts.loads_opens|].
  split; [exact Hresult|]. split; [by rewrite Hresult|].
  by rewrite get_unidata_reply, Hresult.
Qed.

(** C6 as it is stated fails on an answer with a status that is not 2xx
    and a body nested too deep: the body does not parse, yet the upstream
    decoding error is not raised. *)
Lemma unparseable_body_without_decode_error :
  truthy (redis_get "atlantis" (rd init)) = false ∧
  status_code (upstream_deep 502
    "http://universities.hipolabs.com/search?country=atlantis") = 502 ∧
  loads (body (upstream_deep 502
    "http://universities.hipolabs.com/search?country=atlantis")) = None ∧
  (fetch_fish (upstream_deep 502) "atlantis" init).1 ≠
    Raise (HTTPException 500 "Error decoding data from FishWatch API").
Proof.
  split; [done|]. split; [done|]. split; [apply MiniJsonFacts.loads_opens|].
  by rewrite (deep_body_raises 502 "atlantis" init eq_refl).
Qed.

Lemma miss_passes_through_witness :
  upstream_calls (trace (fetch_fish upstream_404 "atlantis" init).2) =
    ["http://universities.hipolabs.com/search?country=atlantis"] ∧
  (fetch_fish upstream_404 "atlantis" init).1 =
    Return (PyDict [("error", PyStr "not found")]) ∧
  (get_unidata upstream_404 "atlantis" init).1 =
    Reply 200 (JsonBody (PyDict [("error", PyStr "not found")])).
Proof.
  destruct (miss_passes_through (codec:=codec) upstream_404 "atlantis" init
              eq_refl) as (Hcalls & Hdecoded & _).
  destruct (Hdecoded (PyDict [("error", PyStr "not found")]) eq_refl)
    as (Hresult & Hreply & _).
  exact (conj Hcalls (conj Hresult (Hreply eq_refl))).
Defined.

Lemma empty_value_is_a_miss_witness :
  let w := World {["uk" := Entry EmptyString None]} [] in
  upstream_calls (trace (fetch_fish upstream_Y "uk" w).2) =
    ["http://universities.hipolabs.com/search?country=uk"] ∧
  (fetch_fish upstream_Y "uk" w).1 ≠
    Raise (HTTPException 500 "Error decoding cached data") ∧
  (fetch_fish upstream_Y "uk" w).1 = Return (universities "Y") ∧
  rd (fetch_fish upstream_Y "uk" w).2 !! "uk" =
    Some (Entry (text "[{'name': 'Y'}]") (Some 86400)).
Proof.
  exact (empty_value_is_a_miss (codec:=codec) upstream_Y "uk"
           (World {["uk" := Entry EmptyString None]} [])
           (Entry EmptyString None) eq_refl eq_refl).
Defined.

Lemma fetch_fish_frame_witness :
  rd (fetch_fish upstream_Y "canada"
        (with_entry "usa" (text "[{'name': 'X'}]"))).2 !! "usa" =
  Some (Entry (text "[{'name': 'X'}]") (Some 86400)).
Proof.
  apply (fetch_fish_frame (codec:=codec) upstream_Y "canada" "usa"
           (with_entry "usa" (text "[{'name': 'X'}]"))).
  discriminate.
Defined.

Lemma reread_returns_the_same_witness :
  let w1 := (fetch_fish upstream_Y "canada" init).2 in
  (fetch_fish upstream_Y "canada" init).1 = Return (universities "Y") ∧
  (fetch_fish upstream_html "canada" w1).1 = Return (universities "Y") ∧
  upstream_calls (trace (fetch_fish upstream_html "canada" w1).2) =
    ["http://universities.hipolabs.com/search?country=canada"] ∧
  loads (dumps (universities "Y")) = Some (universities "Y").
Proof.
  apply (@reread_returns_the_same codec MiniJsonFacts.laws
           upstream_Y upstream_html "canada" init (universities "Y"));
    reflexivity.
Defined.

Lemma reachable_entries_decode_witness :
  let w1 := (fetch_fish upstream_Y "canada" init).2 in
  (∀ key e, rd w1 !! key = Some e → written_by_fetch w1 key e) ∧
  (∀ upstream key e, rd w1 !! key = Some e →
     ∃ d, loads (value e) = Some d ∧
          (fetch_fish upstream key w1).1 = Return d) ∧
  (∀ upstream key,
     (fetch_fish upstream key w1).1 ≠
       Raise (HTTPException 500 "Error decoding cached data")).
Proof.
  apply (@reachable_entries_decode codec MiniJsonFacts.laws).
  apply rtc_once. apply (step_fetch_fish upstream_Y "canada" init).
Defined.

End Runs.

(** ** More on one request *)

Section Request.
Context {codec : JsonCodec}.
Implicit Types (upstream : string → response) (w : world) (d : json).

Lemma fetch_fish_resolve upstream k w :
  ((fetch_fish upstream k w).1, rd (fetch_fish upstream k w).2)
  = resolve upstream k (rd w).
Proof.
  unfold resolve. destruct (truthy (redis_get k (rd w))) eqn:Ht.
  - apply truthy_true in Ht as (c & Hc & Hne).
    rewrite (fetch_fish_hit _ _ _ _ Hc Hne), Hc. done.
  - rewrite (fetch_fish_miss _ _ _ Ht). cbn.
    by destruct (loads (body (upstream (url_of k)))).
Qed.

Lemma fetch_fish_result upstream k w :
  (fetch_fish upstream k w).1 = (resolve upstream k (rd w)).1.
Proof. by rewrite <- fetch_fish_resolve. Qed.

Lemma fetch_fish_rd upstream k w :
  rd (fetch_fish upstream k w).2 = (resolve upstream k (rd w)).2.
Proof. by rewrite <- fetch_fish_resolve. Qed.

(** X1. On a hit, that is when the value under the key is present and not
    empty, [fetch_fish] is a pure read: the store is left as it was, so the
    time to live of the entry is not renewed, no write is sent to Redis, no
    request goes upstream, and the whole outcome is the same whatever the
    upstream would have answered. *)
Theorem hit_is_a_pure_read upstream upstream' k w :
  truthy (redis_get k (rd w)) = true →
  rd (fetch_fish upstream k w).2 = rd w ∧
  cache_writes (trace (fetch_fish upstream k w).2) = cache_writes (trace w) ∧
  upstream_calls (trace (fetch_fish upstream k w).2) = upstream_calls (trace w) ∧
  fetch_fish upstream' k w = fetch_fish upstream k w.
Proof.
  intros (c & Hc & Hne)%truthy_true.
  rewrite !(fetch_fish_hit _ _ _ _ Hc Hne). cbn.
  rewrite cache_writes_app, upstream_calls_app. cbn.
  by rewrite !app_nil_r.
Qed.

(** X2. Whatever the store, one request sends at most one request
    upstream, and it sends one exactly when the value under the key is
    absent or empty. *)
Theorem upstream_called_iff_miss upstream k w :
  upstream_calls (trace (fetch_fish upstream k w).2) =
  (upstream_calls (trace w) ++
   if truthy (redis_get k (rd w)) then []
   else ["http://universities.hipolabs.com/search?country=" +:+ k])%list.
Proof.
  destruct (truthy (redis_get k (rd w))) eqn:Ht.
  - apply truthy_true in Ht as (c & Hc & Hne).
    rewrite (fetch_fish_hit _ _ _ _ Hc Hne). cbn.
    by rewrite upstream_calls_app.
  - rewrite (fetch_fish_miss _ _ _ Ht). cbn.
    destruct (loads _); cbn; by rewrite upstream_calls_app.
Qed.


(** X4. A request that ends in an error changes nothing in the store and
    sends no write to Redis. The writes of a request are none at all, or
    one [SET] of the key followed at once by its [EXPIRE] of 86400 seconds,
    and then the request returns the value that was written. *)
Theorem writes_are_set_then_expire upstream k w :
  (∀ e, (fetch_fish upstream k w).1 = Raise e →
     rd (fetch_fish upstream k w).2 = rd w ∧
     cache_writes (trace (fetch_fish upstream k w).2) = cache_writes (trace w)) ∧
  (cache_writes (trace (fetch_fish upstream k w).2) = cache_writes (trace w) ∨
   ∃ d, (fetch_fish upstream k w).1 = Return d ∧
        cache_writes (trace (fetch_fish upstream k w).2) =
          (cache_writes (trace w) ++
           [RedisSet k (dumps d); RedisExpire k 86400])%list ∧
        rd (fetch_fish upstream k w).2 =
          <[k := {| value := dumps d; ttl := Some 86400 |}]> (rd w)).
Proof.
  destruct (truthy (redis_get k (rd w))) eqn:Ht.
  - apply truthy_true in Ht as (c & Hc & Hne).
    rewrite (fetch_fish_hit _ _ _ _ Hc Hne). cbn.
    rewrite cache_writes_app. cbn. rewrite app_nil_r. by split; [|left].
  - rewrite (fetch_fish_miss _ _ _ Ht). cbn.
    destruct (loads _) as [d|]; cbn; rewrite cache_writes_app; cbn.
    + split; [done|]. right. by exists d.
    + rewrite app_nil_r. by split; [|left].
Qed.

(** X5. A request never removes a key from the store, and the only key it
    can add is the one looked up. *)
Theorem fetch_fish_keys upstream k w :
  dom (rd w) ⊆ dom (rd (fetch_fish upstream k w).2) ∧
  dom (rd (fetch_fish upstream k w).2) ⊆ dom (rd w) ∪ {[k]}.
Proof.
  destruct (fetch_fish_store upstream k w) as [->|[d ->]].
  - split; [done|]. apply union_subseteq_l.
  - rewrite dom_insert_L. split; [apply union_subseteq_r|].
    by rewrite (comm_L (∪)).
Qed.

(** X6. Requests for two different keys commute: served in either order,
    each returns the same result and the store ends up the same. *)
Theorem lookups_of_two_keys_commute upstream k1 k2 w :
  k1 ≠ k2 →
  let w1 := (fetch_fish upstream k1 w).2 in
  let w2 := (fetch_fish upstream k2 w).2 in
  (fetch_fish upstream k1 w2).1 = (fetch_fish upstream k1 w).1 ∧
  (fetch_fish upstream k2 w1).1 = (fetch_fish upstream k2 w).1 ∧
  rd (fetch_fish upstream k2 w1).2 = rd (fetch_fish upstream k1 w2).2.
Proof.
  intros Hne w1 w2. subst w1 w2.
  rewrite !fetch_fish_result, !fetch_fish_rd. generalize (rd w) as db.
  intros db.
  assert (∀ k k' x, k ≠ k' →
            redis_get k' (<[k:=x]> db) = redis_get k' db) as Hother.
  { intros. unfold redis_get. by rewrite lookup_insert_ne. }
  destruct (truthy (redis_get k1 db)) eqn:Ht1,
    (truthy (redis_get k2 db)) eqn:Ht2,
    (loads (body (upstream (url_of k1)))) eqn:Hd1,
    (loads (body (upstream (url_of k2)))) eqn:Hd2;
    unfold resolve; rewrite ?Ht1, ?Ht2, ?Hd1, ?Hd2; cbn;
    rewrite ?Hother by done; rewrite ?Ht1, ?Ht2, ?Hd1, ?Hd2; cbn;
    repeat split; by apply insert_insert_ne.
Qed.

(** X7. A failure of the upstream is not cached: after a miss whose
    upstream answer does not decode, the next request for the key is served
    as if the failed one had not happened, result and store, and asks the
    upstream again. *)
Theorem failed_miss_is_not_cached upstream upstream' k w :
  truthy (redis_get k (rd w)) = false →
  loads (body (upstream (url_of k))) = None →
  let w1 := (fetch_fish upstream k w).2 in
  (fetch_fish upstream' k w1).1 = (fetch_fish upstream' k w).1 ∧
  rd (fetch_fish upstream' k w1).2 = rd (fetch_fish upstream' k w).2 ∧
  upstream_calls (trace (fetch_fish upstream' k w1).2) =
    (upstream_calls (trace w) ++ [url_of k; url_of k])%list.
Proof.
  intros Hmiss Hd w1. subst w1.
  rewrite (fetch_fish_miss upstream _ _ Hmiss). cbn. rewrite Hd. cbn.
  set (w1 := World _ _).
  assert (truthy (redis_get k (rd w1)) = false) as Hmiss1 by done.
  rewrite (fetch_fish_miss upstream' _ _ Hmiss1),
    (fetch_fish_miss upstream' _ _ Hmiss).
  subst w1. cbn.
  destruct (loads (body (upstream' (url_of k)))); cbn;
    rewrite !upstream_calls_app; cbn; by rewrite <- app_assoc.
Qed.

(** X8. A value under the key that is not empty settles every later
    request for the key: however many follow and whatever the upstreams,
    each returns what that value decodes to, or fails in the one way the
    decoding of that value fails (the cache decoding error when it raises
    [json.JSONDecodeError], the exception itself otherwise), the store is
    left as it was, and nothing is sent upstream or written. A corrupted
    entry is never repaired. *)
Theorem hit_is_stable upstreams k w e :
  rd w !! k = Some e →
  value e ≠ EmptyString →
  (lookups upstreams k w).1 =
    replicate (length upstreams)
      (match loads (value e) with
       | Some d => Return d
       | None =>
           Raise (match loads_raises (value e) with
                  | JSONDecodeError =>
                      HTTPException 500 "Error decoding cached data"
                  | err => Error err
                  end)
       end) ∧
  rd (lookups upstreams k w).2 = rd w ∧
  upstream_calls (trace (lookups upstreams k w).2) = upstream_calls (trace w) ∧
  cache_writes (trace (lookups upstreams k w).2) = cache_writes (trace w).
Proof.
  intros He Hne. revert w He.
  induction upstreams as [|upstream rest IH]; intros w He; [done|].
  cbn [lookups length replicate].
  rewrite (fetch_fish_hit _ _ _ _ (redis_get_entry _ _ _ He) Hne).
  set (w1 := World _ _).
  destruct (IH w1 He) as (Hrs & Hdb & Hcalls & Hwrites).
  destruct (lookups rest k w1) as [rs w2]. cbn in *.
  rewrite Hrs, Hdb, Hcalls, Hwrites. subst w1. cbn.
  rewrite upstream_calls_app, cache_writes_app. cbn.
  rewrite !app_nil_r. unfold except_JSONDecodeError.
  destruct (loads (value e)); [done|]. by destruct (loads_raises (value e)).
Qed.

(** *** What the service sends out, over its whole life *)

Lemma fetch_fish_trace upstream k w :
  ∃ t,
    trace (fetch_fish upstream k w).2 = (trace w ++ RedisGet k :: t)%list ∧
    (upstream_calls t = [] ∨ upstream_calls t = [url_of k]) ∧
    (length (cache_writes t) ≤ 2 * length (upstream_calls t))%nat.
Proof.
  destruct (truthy (redis_get k (rd w))) eqn:Ht.
  - apply truthy_true in Ht as (c & Hc & Hne).
    rewrite (fetch_fish_hit _ _ _ _ Hc Hne). cbn. eexists. split; [done|].
    cbn. split; [by left|lia].
  - rewrite (fetch_fish_miss _ _ _ Ht). cbn.
    destruct (loads _); cbn; (eexists; split; [done|]);
      cbn; (split; [by right|lia]).
Qed.

(** X9. In every world reached from the initial one, each request that
    went upstream asked for the search URL of a key that was looked up in
    Redis, and for nothing else, and the writes sent to Redis are at most
    two, a [SET] and its [EXPIRE], for each request that went upstream. *)
Theorem reachable_trace w :
  reachable w →
  Forall (λ url, ∃ k,
            url = "http://universities.hipolabs.com/search?country=" +:+ k ∧
            RedisGet k ∈ trace w)
    (upstream_calls (trace w)) ∧
  (length (cache_writes (trace w)) ≤ 2 * length (upstream_calls (trace w)))%nat.
Proof.
  revert w. apply rtc_ind_r.
  - cbn. split; [constructor|lia].
  - intros w w' _ Hstep [IHurls IHwrites].
    destruct Hstep as [w|upstream k w|key e seconds w He Httl]; [done| |done].
    destruct (fetch_fish_trace upstream k w) as (t & -> & Hcalls & Hwrites).
    rewrite upstream_calls_app, cache_writes_app.
    change (upstream_calls (RedisGet k :: t)) with (upstream_calls t).
    change (cache_writes (RedisGet k :: t)) with (cache_writes t).
    rewrite !length_app. split; [|lia]. apply Forall_app. split.
    + eapply Forall_impl; [exact IHurls|]. intros url (k' & -> & Hin).
      exists k'. split; [done|]. apply elem_of_app. by left.
    + destruct Hcalls as [->| ->]; [constructor|].
      apply Forall_singleton. exists k. split; [done|].
      apply elem_of_app. right. by left.
Qed.

(** X10. With a JSON library that keeps its laws, in every world reached
    from the initial one a key that is present is served from the cache:
    its entry is not empty and carries a time to live of 86400 seconds, and
    a request for it sends nothing upstream and leaves the store as it
    was. The upstream is asked for absent keys only. *)
Theorem reachable_present_key_is_cached `{!JsonLaws codec} upstream k w e :
  reachable w →
  rd w !! k = Some e →
  value e ≠ EmptyString ∧
  ttl e = Some 86400 ∧
  upstream_calls (trace (fetch_fish upstream k w).2) = upstream_calls (trace w) ∧
  rd (fetch_fish upstream k w).2 = rd w.
Proof.
  intros Hinv%reachable_store_inv He.
  destruct (Hinv _ _ He) as (resp & d & _ & _ & ->). cbn.
  pose proof (dumps_not_empty d) as Hne. split; [done|]. split; [done|].
  rewrite (fetch_fish_hit _ _ _ (dumps d) (redis_get_entry _ _ _ He) Hne).
  cbn. rewrite upstream_calls_app. cbn. by rewrite app_nil_r.
Qed.

End Request.

(** ** More scenarios, run *)

Module MoreRuns.
Import MiniJson Scenario.

Lemma hit_is_a_pure_read_witness :
  let w := with_entry "usa" (text "[{'name': 'X'}]") in
  rd (fetch_fish upstream_Y "usa" w).2 = rd w ∧
  cache_writes (trace (fetch_fish upstream_Y "usa" w).2) = [] ∧
  upstream_calls (trace (fetch_fish upstream_Y "usa" w).2) = [] ∧
  fetch_fish upstream_html "usa" w = fetch_fish upstream_Y "usa" w.
Proof.
  apply (hit_is_a_pure_read (codec:=codec) upstream_Y upstream_html "usa"
           (with_entry "usa" (text "[{'name': 'X'}]"))).
  reflexivity.
Defined.

Lemma lookups_of_two_keys_commute_witness :
  let w1 := (fetch_fish upstream_Y "canada" init).2 in
  let w2 := (fetch_fish upstream_Y "fr" init).2 in
  (fetch_fish upstream_Y "canada" w2).1 = (fetch_fish upstream_Y "canada" init).1 ∧
  (fetch_fish upstream_Y "fr" w1).1 = (fetch_fish upstream_Y "fr" init).1 ∧
  rd (fetch_fish upstream_Y "fr" w1).2 = rd (fetch_fish upstream_Y "canada" w2).2.
Proof.
  apply (lookups_of_two_keys_commute (codec:=codec) upstream_Y "canada" "fr" init).
  discriminate.
Defined.

Lemma failed_miss_is_not_cached_witness :
  let w1 := (fetch_fish upstream_html "fr" init).2 in
  (fetch_fish upstream_Y "fr" w1).1 = (fetch_fish upstream_Y "fr" init).1 ∧
  rd (fetch_fish upstream_Y "fr" w1).2 = rd (fetch_fish upstream_Y "fr" init).2 ∧
  upstream_calls (trace (fetch_fish upstream_Y "fr" w1).2) =
    ["http://universities.hipolabs.com/search?country=fr";
     "http://universities.hipolabs.com/search?country=fr"].
Proof.
  apply (failed_miss_is_not_cached (codec:=codec) upstream_html upstream_Y
           "fr" init); reflexivity.
Defined.

Lemma hit_is_stable_witness :
  let w := with_entry "uk" "not json" in
  (lookups [upstream_Y; upstream_404; upstream_Y] "uk" w).1 =
    [Raise (HTTPException 500 "Error decoding cached data");
     Raise (HTTPException 500 "Error decoding cached data");
     Raise (HTTPException 500 "Error decoding cached data")] ∧
  rd (lookups [upstream_Y; upstream_404; upstream_Y] "uk" w).2 = rd w ∧
  upstream_calls
    (trace (lookups [upstream_Y; upstream_404; upstream_Y] "uk" w).2) = [] ∧
  cache_writes
    (trace (lookups [upstream_Y; upstream_404; upstream_Y] "uk" w).2) = [].
Proof.
  apply (hit_is_stable (codec:=codec) [upstream_Y; upstream_404; upstream_Y]
           "uk" (with_entry "uk" "not json") (Entry "not json" (Some 86400)));
    [reflexivity|discriminate].
Defined.

Lemma reachable_trace_witness :
  let w := (fetch_fish upstream_Y "fr"
              (fetch_fish upstream_html "canada" init).2).2 in
  Forall (λ url, ∃ k,
            url = "http://universities.hipolabs.com/search?country=" +:+ k ∧
            RedisGet k ∈ trace w)
    (upstream_calls (trace w)) ∧
  (length (cache_writes (trace w)) ≤ 2 * length (upstream_calls (trace w)))%nat.
Proof.
  apply (reachable_trace (codec:=codec)).
  eapply rtc_l; [apply (step_fetch_fish upstream_html "canada" init)|].
  apply rtc_once. apply step_fetch_fish.
Defined.


Lemma reachable_present_key_is_cached_witness :
  let w := (fetch_fish upstream_Y "canada" init).2 in
  text "[{'name': 'Y'}]" ≠ EmptyString ∧
  Some 86400 = Some 86400 ∧
  upstream_calls (trace (fetch_fish upstream_html "canada" w).2) =
    upstream_calls (trace w) ∧
  rd (fetch_fish upstream_html "canada" w).2 = rd w.
Proof.
  apply (@reachable_present_key_is_cached codec MiniJsonFacts.laws
           upstream_html "canada" (fetch_fish upstream_Y "canada" init).2
           (Entry (text "[{'name': 'Y'}]") (Some 86400))).
  - apply rtc_once. apply (step_fetch_fish upstream_Y "canada" init).
  - reflexivity.
Defined.

End MoreRuns.
